(** * WhatsApp Gateway (FastAPI front end): message relay, health and
    connector endpoints of [src/fastapi/app/main.py] and
    [src/fastapi/app/main.old.py], shallowly embedded. *)

From Stdlib Require Import String ZArith Lia Arith DecimalString List.
Import ListNotations.
Open Scope string_scope.
Open Scope list_scope.
Open Scope bool_scope.
Set Warnings "-register-all".

(* ------------------------------------------------------------------ *)
(** ** JSON values and Python dictionaries *)

(** A JSON value as [r.json()] / [json.loads] produce it. *)
Inductive json : Type :=
| JNull
| JBool (b : bool)
| JNum (z : Z)
| JStr (s : string)
| JArr (xs : list json)
| JObj (fields : list (string * json)).

(** [dict.get(k)] on the dict built from a JSON object: the last
    occurrence of a key wins (as in [json.loads]); a missing key gives
    [None], i.e. [JNull]. *)
Fixpoint dict_lookup (fs : list (string * json)) (k : string) : option json :=
  match fs with
  | [] => None
  | (k', v) :: rest =>
      match dict_lookup rest k with
      | Some w => Some w
      | None => if String.eqb k k' then Some v else None
      end
  end.

Definition dict_get (fs : list (string * json)) (k : string) : json :=
  match dict_lookup fs k with Some v => v | None => JNull end.

(** Python truthiness of a decoded JSON value. *)
Definition truthy (v : json) : bool :=
  match v with
  | JNull => false
  | JBool b => b
  | JNum z => negb (Z.eqb z 0)
  | JStr s => negb (String.eqb s "")
  | JArr xs => match xs with [] => false | _ => true end
  | JObj fs => match fs with [] => false | _ => true end
  end.

(* ------------------------------------------------------------------ *)
(** ** Exceptions and endpoint outcomes *)

(** Exceptions that can leave a handler. *)
Inductive exn : Type :=
| ConnectError                  (** httpx transport failure *)
| HTTPStatusError (code : Z)    (** raised by [r.raise_for_status()] *)
| JSONDecodeError               (** [r.json()] / [json.loads] failure *)
| AttributeError                (** [.get] on a non-dict *)
| QRRenderError                 (** [qrcode.make] / PNG encoding failure *)
| ResponseError.                (** redis-py: an error reply of Redis *)

(** What a FastAPI handler produces: a return value, an
    [HTTPException(code)] (request validation failures are the framework's
    422), or an exception escaping the handler. *)
Inductive response (B : Type) : Type :=
| Ok (body : B)
| HttpErr (code : Z)
| Uncaught (e : exn).
Arguments Ok {B} body.
Arguments HttpErr {B} code.
Arguments Uncaught {B} e.

(** The HTTP status the client sees: an uncaught exception is served by
    the framework as 500. *)
Definition served_status {B} (r : response B) : Z :=
  match r with
  | Ok _ => 200
  | HttpErr c => c
  | Uncaught _ => 500
  end.

(** FastAPI [Query(..., ge=lo, le=hi)] check on an [int] parameter. *)
Definition query_ok (ge le : option Z) (v : Z) : bool :=
  match ge with Some lo => Z.leb lo v | None => true end &&
  match le with Some hi => Z.leb v hi | None => true end.

(* ------------------------------------------------------------------ *)
(** ** The Redis list [QUEUE_KEY]

    The list value, head (index 0) first, as LRANGE numbers it. *)
Definition rlist := list string.

Definition QUEUE_KEY := "whatsapp:messages:incoming".

(** LLEN *)
Definition llen (l : rlist) : nat := length l.

(** RPOP: removes and returns the tail element, [None] (nil) on an empty
    list. *)
Definition rpop (l : rlist) : option string * rlist :=
  match l with
  | [] => (None, [])
  | _ => (Some (List.last l ""), List.removelast l)
  end.

(** LRANGE start end, with Redis' index normalisation. *)
Definition lrange {A} (l : list A) (start stop : Z) : list A :=
  let len := Z.of_nat (length l) in
  let s := if Z.ltb start 0 then (len + start)%Z else start in
  let e := if Z.ltb stop 0 then (len + stop)%Z else stop in
  let s := if Z.ltb s 0 then 0%Z else s in
  if Z.ltb e s || Z.leb len s then []
  else
    let e := if Z.leb len e then (len - 1)%Z else e in
    firstn (Z.to_nat (e - s + 1)) (skipn (Z.to_nat s) l).

(** Redis parses an integer argument as a signed 64-bit value and replies
    [ERR value is not an integer or out of range] otherwise. *)
Definition int64_ok (z : Z) : bool := (- 2^63 <=? z)%Z && (z <? 2^63)%Z.

(** The LRANGE command: [None] is Redis' error reply, raised by redis-py
    as [ResponseError]. *)
Definition lrange_cmd {A} (l : list A) (start stop : Z) : option (list A) :=
  if int64_ok start && int64_ok stop then Some (lrange l start stop) else None.

(** A pipeline (MULTI/EXEC) of [n] RPOPs: the replies in order and the
    list after the batch. *)
Fixpoint rpop_n (n : nat) (l : rlist) : list (option string) * rlist :=
  match n with
  | O => ([], l)
  | S k =>
      let (r, l1) := rpop l in
      let (rs, l2) := rpop_n k l1 in
      (r :: rs, l2)
  end.

(** [if r] on a reply of type [Optional[str]]: [None] and [""] are
    dropped. *)
Definition keep_reply (r : option string) : list string :=
  match r with
  | Some s => if String.eqb s "" then [] else [s]
  | None => []
  end.

Definition present (rs : list (option string)) : list string :=
  flat_map keep_reply rs.

(** [if i] on an LRANGE item. *)
Definition nonempty (items : list string) : list string :=
  filter (fun s => negb (String.eqb s "")) items.

(** The body [{"messages": msgs, "count": len(msgs)}]. *)
Record messages_body (V : Type) : Type := MessagesBody {
  messages : list V;
  count : Z
}.
Arguments MessagesBody {V} messages count.
Arguments messages {V} _.
Arguments count {V} _.

(** [{"queue_length": n, "queue_key": QUEUE_KEY}] *)
Record queue_status_body : Type := QueueStatusBody {
  queue_length : Z;
  queue_key : string
}.

Section Queue.
(** Decoded message values and [json.loads] on a stored string
    ([None] when it raises). *)
Variable V : Type.
Variable loads : string -> option V.

(** [[json.loads(i) for i in items]]: the first failure raises. *)
Fixpoint loads_all (xs : list string) : option (list V) :=
  match xs with
  | [] => Some []
  | x :: rest =>
      match loads x with
      | None => None
      | Some v => match loads_all rest with
                  | Some vs => Some (v :: vs)
                  | None => None
                  end
      end
  end.

Definition messages_response (raw : list string)
  : response (messages_body V) :=
  match loads_all raw with
  | Some msgs => Ok (MessagesBody msgs (Z.of_nat (length msgs)))
  | None => Uncaught JSONDecodeError
  end.

(** [GET /messages/status] *)
Definition queue_status (st : rlist) : response queue_status_body * rlist :=
  (Ok (QueueStatusBody (Z.of_nat (llen st)) QUEUE_KEY), st).

(** Body of [peek]: LRANGE, drop empty items, decode.  An error reply of
    LRANGE escapes the handler. *)
Definition peek_handler (start stop : Z) (st : rlist)
  : response (messages_body V) * rlist :=
  match lrange_cmd st start stop with
  | Some items => (messages_response (nonempty items), st)
  | None => (Uncaught ResponseError, st)
  end.

(** [GET /messages/peek?start&end] with [end: Query(9, le=99)]: FastAPI
    answers 422 before the handler runs when the bound fails. *)
Definition peek (start stop : Z) (st : rlist)
  : response (messages_body V) * rlist :=
  if negb (query_ok None (Some 99%Z) stop) then (HttpErr 422%Z, st)
  else peek_handler start stop st.

(** Body of [pop]: a pipeline of [count] RPOPs, drop nil and empty
    replies, decode. *)
Definition pop_handler (n : Z) (st : rlist)
  : response (messages_body V) * rlist :=
  let (results, st') := rpop_n (Z.to_nat n) st in
  (messages_response (present results), st').

(** [POST /messages/pop?count] with [count: Query(10, ge=1, le=100)]. *)
Definition pop (n : Z) (st : rlist) : response (messages_body V) * rlist :=
  if negb (query_ok (Some 1%Z) (Some 100%Z) n) then (HttpErr 422%Z, st)
  else pop_handler n st.

End Queue.

(** Modelled from the spec: the append side of the queue (the connector's
    ingestion, not in [src/]).  [pop] is specified to return the oldest
    envelopes and [peek] the most recent first; with RPOP on the tail and
    LRANGE from the head this places each new envelope at the head of the
    list (LPUSH of its JSON text). *)
Definition append {V} (dumps : V -> string) (e : V) (st : rlist) : rlist :=
  dumps e :: st.

(** A store built by appending [hist] (oldest first) to the empty list. *)
Definition store_of {V} (dumps : V -> string) (hist : list V) : rlist :=
  fold_left (fun st e => append dumps e st) hist [].

(* ------------------------------------------------------------------ *)
(** ** Clients of the queue: a sequence of appends and pops *)

Section Trace.
Variable V : Type.
Variable dumps : V -> string.
Variable loads : string -> option V.

Inductive op : Type :=
| OpAppend (e : V)
| OpPop (n : Z).

(** Runs the operations in order; collects the messages of every pop that
    answered with a body. *)
Fixpoint run (ops : list op) (st : rlist) : list (list V) * rlist :=
  match ops with
  | [] => ([], st)
  | OpAppend e :: rest => run rest (append dumps e st)
  | OpPop n :: rest =>
      let (r, st1) := pop V loads n st in
      let (rs, st2) := run rest st1 in
      match r with
      | Ok b => (messages b :: rs, st2)
      | _ => (rs, st2)
      end
  end.

(** The envelopes appended by [ops], in order. *)
Fixpoint appended (ops : list op) : list V :=
  match ops with
  | [] => []
  | OpAppend e :: rest => e :: appended rest
  | OpPop _ :: rest => appended rest
  end.

End Trace.
Arguments OpAppend {V} e.
Arguments OpPop {V} n.
Arguments appended {V} ops.

(** A toy codec used to instantiate the theorems on concrete inputs:
    every encoding is non-empty and decodes back. *)
Definition dumps_tag (s : string) : string := String (Ascii.ascii_of_nat 120) s.

Definition loads_tag (s : string) : option string :=
  match s with
  | String _ r => Some r
  | EmptyString => None
  end.

(** A decoder that also rejects texts not produced by [dumps_tag]. *)
Definition loads_strict (s : string) : option string :=
  match s with
  | String c r => if Ascii.eqb c (Ascii.ascii_of_nat 120) then Some r else None
  | EmptyString => None
  end.

(* ------------------------------------------------------------------ *)
(** ** The connector (BAILEYS_URL) and the endpoints that call it *)

(** What one HTTP call to the connector gives the helper functions. *)
Inductive conn_result : Type :=
| CReply (body : json)   (** 2xx with a JSON body *)
| CStatus (code : Z)     (** non-2xx: [r.raise_for_status()] raises *)
| CUnreachable           (** transport failure or timeout in httpx *)
| CBadBody.              (** 2xx whose body is not JSON: [r.json()] raises *)

(** The connector's answer to [GET path] and to [POST path json]. *)
Definition connector_get := string -> conn_result.
Definition connector_post := string -> json -> conn_result.

(** The exception a failed call raises out of the helper. *)
Definition call_result (r : conn_result) : response json :=
  match r with
  | CReply j => Ok j
  | CStatus c => Uncaught (HTTPStatusError c)
  | CUnreachable => Uncaught ConnectError
  | CBadBody => Uncaught JSONDecodeError
  end.

Definition baileys_get (get : connector_get) (path : string) : response json :=
  call_result (get path).

Definition baileys_post (post : connector_post) (path : string) (data : json)
  : response json :=
  call_result (post path data).

(** [try: ... except Exception as e: raise HTTPException(503, ...)] *)
Definition or_503 (r : response json) : response json :=
  match r with
  | Ok j => Ok j
  | HttpErr c => HttpErr c
  | Uncaught _ => HttpErr 503%Z
  end.

(** [GET /status] (main.py) *)
Definition status (get : connector_get) : response json :=
  or_503 (baileys_get get "/status").

(** [GET /qrcode] (main.py).  [render] is [qrcode.make] followed by PNG
    and base64 encoding of [r["qr"]]; [None] when it raises. *)
Definition get_qrcode (get : connector_get) (render : json -> option string)
  : response json :=
  match baileys_get get "/qrcode" with
  | Ok r =>
      match r with
      | JObj fs =>
          let qr := dict_get fs "qr" in
          let img_b64 :=
            if truthy qr then option_map JStr (render qr) else Some JNull in
          match img_b64 with
          | Some img =>
              Ok (JObj [("qr", qr); ("qr_image_base64", img);
                        ("status", dict_get fs "status")])
          | None => HttpErr 503%Z
          end
      | _ => HttpErr 503%Z           (** [r.get] raises AttributeError *)
      end
  | Uncaught (HTTPStatusError c) => HttpErr c
  | Uncaught _ => HttpErr 503%Z
  | HttpErr c => HttpErr c
  end.

(** The send endpoints of main.py: [baileys_post(path, b.model_dump())]
    with no handler around it; [body] is [b.model_dump()]. *)
Definition send_text (post : connector_post) (body : json) : response json :=
  baileys_post post "/send/text" body.
Definition send_image (post : connector_post) (body : json) : response json :=
  baileys_post post "/send/image" body.
Definition send_buttons (post : connector_post) (body : json) : response json :=
  baileys_post post "/send/buttons" body.
Definition send_list (post : connector_post) (body : json) : response json :=
  baileys_post post "/send/list" body.
Definition send_template (post : connector_post) (body : json) : response json :=
  baileys_post post "/send/template" body.
Definition send_reaction (post : connector_post) (body : json) : response json :=
  baileys_post post "/send/reaction" body.

(** [GET /health]: [ping_ok] is whether [await redis_client.ping()]
    returned without raising; every exception of either probe is caught. *)
Definition health (ping_ok : bool) (get : connector_get) : response json :=
  let redis_ok := ping_ok in
  let baileys_ok :=
    match baileys_get get "/status" with Ok _ => true | _ => false end in
  Ok (JObj [("status", JStr (if redis_ok && baileys_ok then "healthy"
                             else "degraded"));
            ("redis", JStr (if redis_ok then "ok" else "error"));
            ("baileys", JStr (if baileys_ok then "ok" else "error"))]).

(** Python's [f"{n}"] on an [int]. *)
Definition zstr (z : Z) : string := NilZero.string_of_int (Z.to_int z).

(** [GET /messages/stream/read] (main.old.py), handler body and endpoint
    with [count: Query(10, ge=1, le=100)]. *)
Definition stream_read_handler (get : connector_get) (count : Z) (lastId : string)
  : response json :=
  baileys_get get (String.append "/messages/stream/read?count="
                     (String.append (zstr count)
                        (String.append "&lastId=" lastId))).

Definition stream_read (get : connector_get) (count : Z) (lastId : string)
  : response json :=
  if negb (query_ok (Some 1%Z) (Some 100%Z) count) then HttpErr 422%Z
  else stream_read_handler get count lastId.

(** [GET /messages/trace/{jid}] (main.old.py) with
    [limit: Query(100, ge=1, le=500)]. *)
Definition trace_handler (get : connector_get) (jid : string) (limit : Z)
  : response json :=
  or_503 (baileys_get get (String.append "/messages/trace/"
                             (String.append jid
                                (String.append "?limit=" (zstr limit))))).

Definition trace_conversation (get : connector_get) (jid : string) (limit : Z)
  : response json :=
  if negb (query_ok (Some 1%Z) (Some 500%Z) limit) then HttpErr 422%Z
  else trace_handler get jid limit.

(** [GET /messages/status] of main.old.py:
    [{"queue_length": info.get("length", 0)}]. *)
Definition queue_status_legacy (get : connector_get) : response json :=
  match baileys_get get "/messages/stream/info" with
  | Ok info =>
      match info with
      | JObj fs =>
          Ok (JObj [("queue_length",
                     match dict_lookup fs "length" with
                     | Some v => v
                     | None => JNum 0
                     end)])
      | _ => Uncaught AttributeError
      end
  | r => r
  end.

(* ------------------------------------------------------------------ *)
(** ** Further endpoints of main.py and main.old.py *)

















(* ------------------------------------------------------------------ *)
(** ** Webhook delivery *)

(** [POST /webhooks/register] (main.old.py): forwarded to the connector,
    which keeps the registry and performs the deliveries. *)
Definition register_webhook (post : connector_post) (body : json)
  : response json :=
  baileys_post post "/webhooks/register" body.

Record retry_policy : Type := RetryPolicy {
  base_interval : nat;
  backoff_factor : nat;
  max_attempts : nat
}.

Inductive delivery_outcome : Type := Acked | Exhausted.

(** What the dispatcher records for one (subscriber, event) pair. *)
Record delivery : Type := Delivery {
  outcome : delivery_outcome;
  waits : list nat;      (** backoff slept before each retry *)
  attempts : nat;        (** POSTs made *)
  delivered : nat        (** successful deliveries recorded *)
}.

(** Modelled from the spec: the backoff of the webhook dispatcher
    (section 4.3, not in src/): exponential, starting at a fixed base
    interval; the wait after failed attempt [k] (0-based). *)
Definition backoff (p : retry_policy) (k : nat) : nat :=
  base_interval p * backoff_factor p ^ k.

(** Modelled from the spec: the delivery loop of the webhook dispatcher
    (section 4.3, not in src/).  Attempt [k] POSTs to the subscriber;
    [endpoint k] is whether it is acknowledged.  On success the delivery
    is recorded and the loop stops (Acked); on failure it waits
    [backoff p k] and retries, until [left] attempts are used up
    (Exhausted). *)
Fixpoint deliver_from (p : retry_policy) (endpoint : nat -> bool)
  (k left : nat) : delivery :=
  match left with
  | O => Delivery Exhausted [] 0 0
  | S left' =>
      if endpoint k then Delivery Acked [] 1 1
      else
        match left' with
        | O => Delivery Exhausted [] 1 0
        | S _ =>
            let d := deliver_from p endpoint (S k) left' in
            Delivery (outcome d) (backoff p k :: waits d)
                     (S (attempts d)) (delivered d)
        end
  end.

Definition deliver (p : retry_policy) (endpoint : nat -> bool) : delivery :=
  deliver_from p endpoint 0 (max_attempts p).

(** Modelled from the spec: dispatching one stored event to one
    subscriber; the store and the dispatcher have independent lifecycles,
    so the store is returned as it was. *)
Definition dispatch_event (p : retry_policy) (endpoint : nat -> bool)
  (st : rlist) : rlist * delivery :=
  (st, deliver p endpoint).

Fixpoint strictly_increasing (l : list nat) : Prop :=
  match l with
  | x :: ((y :: _) as rest) => x < y /\ strictly_increasing rest
  | _ => True
  end.

(* ------------------------------------------------------------------ *)
(** ** Sanity checks on concrete queues *)

Example rpop_tail : rpop ["c"; "b"; "a"] = (Some "a", ["c"; "b"]).
Proof. reflexivity. Qed.

Example lrange_default :
  lrange ["e"; "d"; "c"; "b"; "a"] 0 9 = ["e"; "d"; "c"; "b"; "a"].
Proof. reflexivity. Qed.

Example lrange_negative : lrange ["e"; "d"; "c"; "b"; "a"] (-2) (-1) = ["b"; "a"].
Proof. reflexivity. Qed.

Example pop_two_of_five :
  pop string (fun s => Some s) 2 (store_of (fun s => s) ["1"; "2"; "3"; "4"; "5"])
  = (Ok (MessagesBody ["1"; "2"] 2), ["5"; "4"; "3"]).
Proof. reflexivity. Qed.

(* ------------------------------------------------------------------ *)
(** ** Queue lemmas *)

Lemma store_of_rev {V} (dumps : V -> string) (hist : list V) :
  store_of dumps hist = rev (map dumps hist).
Proof.
  unfold store_of.
  assert (H : forall acc, fold_left (fun st e => append dumps e st) hist acc
                          = rev (map dumps hist) ++ acc).
  { induction hist as [|x xs IH]; intro acc; simpl; [reflexivity|].
    rewrite IH. unfold append. rewrite <- app_assoc. reflexivity. }
  rewrite H, app_nil_r. reflexivity.
Qed.

Lemma rpop_snoc (l : rlist) (x : string) : rpop (l ++ [x]) = (Some x, l).
Proof.
  unfold rpop. destruct (l ++ [x]) eqn:E.
  - destruct l; discriminate.
  - rewrite <- E, last_last, removelast_last. reflexivity.
Qed.

Lemma rpop_n_nil (k : nat) : rpop_n k [] = (repeat None k, []).
Proof. induction k as [|k IH]; simpl; [reflexivity|]. rewrite IH. reflexivity. Qed.

(** [k] RPOPs on the list built from [xs] (oldest first) return the [k]
    oldest elements, oldest first, then nil replies. *)
Lemma rpop_n_rev (k : nat) (xs : list string) :
  rpop_n k (rev xs)
  = (map Some (firstn k xs) ++ repeat None (k - length xs), rev (skipn k xs)).
Proof.
  revert xs; induction k as [|k IH]; intro xs; [reflexivity|].
  destruct xs as [|x xs].
  - simpl rev. rewrite rpop_n_nil. reflexivity.
  - simpl rev. simpl rpop_n. rewrite rpop_snoc, IH. reflexivity.
Qed.

Lemma present_app (a b : list (option string)) :
  present (a ++ b) = present a ++ present b.
Proof. unfold present. apply flat_map_app. Qed.

Lemma present_repeat_None (m : nat) : present (repeat None m) = [].
Proof. induction m; simpl; auto. Qed.

Lemma present_map_Some (xs : list string) :
  (forall x, In x xs -> x <> "") -> present (map Some xs) = xs.
Proof.
  induction xs as [|x xs IH]; intro H; [reflexivity|].
  simpl. destruct (String.eqb_spec x "") as [E|E].
  - exfalso. apply (H x); [left|]; auto.
  - simpl. f_equal. apply IH. intros y Hy. apply H. right. exact Hy.
Qed.

Lemma loads_all_map {V} (loads : string -> option V) (dumps : V -> string)
  (Hrt : forall e, loads (dumps e) = Some e) (es : list V) :
  loads_all V loads (map dumps es) = Some es.
Proof.
  induction es as [|e es IH]; [reflexivity|].
  simpl. rewrite Hrt, IH. reflexivity.
Qed.

Lemma firstn_min {A} (n : nat) (l : list A) :
  firstn n l = firstn (Nat.min n (length l)) l.
Proof.
  destruct (Nat.le_ge_cases n (length l)) as [H|H].
  - rewrite Nat.min_l by exact H. reflexivity.
  - rewrite Nat.min_r by exact H. rewrite !firstn_all2; auto.
Qed.

Lemma skipn_min {A} (n : nat) (l : list A) :
  skipn n l = skipn (Nat.min n (length l)) l.
Proof.
  destruct (Nat.le_ge_cases n (length l)) as [H|H].
  - rewrite Nat.min_l by exact H. reflexivity.
  - rewrite Nat.min_r by exact H. rewrite !skipn_all2; auto.
Qed.

(** Popping [n] accepted envelopes from the store built from [hist]. *)
Lemma pop_store_of {V} (dumps : V -> string) (loads : string -> option V)
  (Hrt : forall e, loads (dumps e) = Some e) (Hne : forall e, dumps e <> "")
  (hist : list V) (n : Z) (Hn : (1 <= n <= 100)%Z) :
  pop V loads n (store_of dumps hist)
  = (Ok (MessagesBody (firstn (Z.to_nat n) hist)
                      (Z.of_nat (length (firstn (Z.to_nat n) hist)))),
     store_of dumps (skipn (Z.to_nat n) hist)).
Proof.
  unfold pop, pop_handler, query_ok.
  replace (Z.leb 1 n && Z.leb n 100) with true
    by (symmetry; apply Bool.andb_true_iff; split; apply Z.leb_le; lia).
  simpl negb. cbv iota.
  rewrite !store_of_rev, rpop_n_rev, present_app, present_repeat_None, app_nil_r.
  rewrite firstn_map, present_map_Some.
  - unfold messages_response. rewrite loads_all_map by exact Hrt.
    rewrite skipn_map. reflexivity.
  - intros x Hx. apply in_map_iff in Hx. destruct Hx as [e [<- _]]. apply Hne.
Qed.

Lemma NoDup_app_disjoint {A} (l1 l2 : list A) (a : A) :
  NoDup (l1 ++ l2) -> In a l1 -> ~ In a l2.
Proof.
  induction l1 as [|x l1 IH]; intros Hnd Hin; [destruct Hin|].
  simpl in Hnd. apply NoDup_cons_iff in Hnd as [Hx Hnd].
  destruct Hin as [<-|Hin].
  - intro H2. apply Hx. apply in_app_iff. right. exact H2.
  - apply IH; assumption.
Qed.

(* ------------------------------------------------------------------ *)
(** ** C1: pop is FIFO and removes exactly what it returns *)

(** C1. For a store holding the envelopes [hist] (appended oldest first;
    each stored as a non-empty JSON text that decodes back to it) and an
    accepted count [1 <= n <= 100], with [k = min n (length hist)]: pop
    returns exactly the [k] oldest envelopes, oldest first, with count [k];
    the store afterwards holds exactly the remaining [length hist - k]
    envelopes; returned and remaining envelopes together are [hist].  On an
    empty store ([hist = []]) the result is the empty list, not an error. *)
Theorem pop_fifo_oldest {V} (dumps : V -> string) (loads : string -> option V)
  (Hrt : forall e, loads (dumps e) = Some e) (Hne : forall e, dumps e <> "")
  (hist : list V) (n : Z) (Hn : (1 <= n <= 100)%Z) :
  let k := Nat.min (Z.to_nat n) (length hist) in
  pop V loads n (store_of dumps hist)
    = (Ok (MessagesBody (firstn k hist) (Z.of_nat k)),
       store_of dumps (skipn k hist))
  /\ llen (store_of dumps (skipn k hist)) = length hist - k
  /\ firstn k hist ++ skipn k hist = hist.
Proof.
  cbv zeta. split; [|split].
  - rewrite pop_store_of by assumption.
    rewrite length_firstn, <- firstn_min, <- skipn_min. reflexivity.
  - unfold llen. rewrite store_of_rev, length_rev, length_map, length_skipn.
    lia.
  - apply firstn_skipn.
Qed.

Lemma pop_fifo_oldest_witness :
  (1 <= 2 <= 100)%Z /\
  pop string loads_tag 2 (store_of dumps_tag ["a"; "b"; "c"; "d"; "e"])
    = (Ok (MessagesBody ["a"; "b"] 2), store_of dumps_tag ["c"; "d"; "e"])
  /\ llen (store_of dumps_tag ["c"; "d"; "e"]) = 3.
Proof.
  split; [lia|].
  destruct (pop_fifo_oldest dumps_tag loads_tag
              (fun e => eq_refl) (fun e H => ltac:(discriminate H))
              ["a"; "b"; "c"; "d"; "e"] 2 ltac:(lia)) as [H1 [H2 _]].
  split; [exact H1 | exact H2].
Defined.

(* ------------------------------------------------------------------ *)
(** ** C2: pops never return an envelope twice and lose none *)

Lemma pop_rejected {V} (loads : string -> option V) (n : Z) (st : rlist) :
  ~ (1 <= n <= 100)%Z -> pop V loads n st = (HttpErr 422%Z, st).
Proof.
  intro Hn. unfold pop, query_ok.
  destruct (Z.leb 1 n && Z.leb n 100) eqn:E; [|reflexivity].
  apply Bool.andb_true_iff in E as [E1 E2].
  apply Z.leb_le in E1, E2. exfalso. apply Hn. lia.
Qed.

Lemma pop_ok_accepted {V} (loads : string -> option V) (n : Z) (st : rlist) b st' :
  pop V loads n st = (Ok b, st') -> (1 <= n <= 100)%Z.
Proof.
  intro H. destruct (Z.le_decidable 1 n), (Z.le_decidable n 100); try lia;
  rewrite pop_rejected in H by lia; discriminate.
Qed.

Lemma append_store_of {V} (dumps : V -> string) (hist : list V) (e : V) :
  append dumps e (store_of dumps hist) = store_of dumps (hist ++ [e]).
Proof.
  rewrite !store_of_rev, map_app, rev_app_distr. reflexivity.
Qed.

Section TraceFacts.
Variable V : Type.
Variable dumps : V -> string.
Variable loads : string -> option V.
Hypothesis Hrt : forall e, loads (dumps e) = Some e.
Hypothesis Hne : forall e, dumps e <> "".

(** At every point, the envelopes already popped followed by those still
    stored (oldest first) are the envelopes appended. *)
Lemma run_partition (ops : list (op V)) (rest0 : list V) :
  let (results, st) := run V dumps loads ops (store_of dumps rest0) in
  exists rest, st = store_of dumps rest
          /\ rest0 ++ appended ops = concat results ++ rest.
Proof.
  revert rest0; induction ops as [|o ops IH]; intro rest0.
  - exists rest0. rewrite app_nil_r. split; reflexivity.
  - destruct o as [e|n]; simpl.
    + rewrite append_store_of. specialize (IH (rest0 ++ [e])).
      destruct (run V dumps loads ops _) as [results st].
      destruct IH as [rest [H1 H2]]. exists rest. split; [exact H1|].
      rewrite <- H2, <- app_assoc. reflexivity.
    + destruct (Z.le_decidable 1 n), (Z.le_decidable n 100).
      * rewrite pop_store_of by (assumption || lia).
        specialize (IH (skipn (Z.to_nat n) rest0)).
        destruct (run V dumps loads ops _) as [results st].
        destruct IH as [rest [H1 H2]]. exists rest. split; [exact H1|].
        simpl. rewrite <- app_assoc, <- H2, app_assoc, firstn_skipn.
        reflexivity.
      * rewrite pop_rejected by lia. specialize (IH rest0).
        destruct (run V dumps loads ops _). exact IH.
      * rewrite pop_rejected by lia. specialize (IH rest0).
        destruct (run V dumps loads ops _). exact IH.
      * rewrite pop_rejected by lia. specialize (IH rest0).
        destruct (run V dumps loads ops _). exact IH.
Qed.

Lemma run_app (ops1 ops2 : list (op V)) (st : rlist) :
  run V dumps loads (ops1 ++ ops2) st
  = let (r1, s1) := run V dumps loads ops1 st in
    let (r2, s2) := run V dumps loads ops2 s1 in
    (r1 ++ r2, s2).
Proof.
  revert st; induction ops1 as [|o ops1 IH]; intro st.
  - simpl. destruct (run V dumps loads ops2 st). reflexivity.
  - destruct o as [e|n]; simpl.
    + apply IH.
    + destruct (pop V loads n st) as [r st1]. rewrite IH.
      destruct (run V dumps loads ops1 st1) as [r1 s1].
      destruct r; simpl; destruct (run V dumps loads ops2 s1); reflexivity.
Qed.

(** [k] pops of 100 drain a store of at most [k] envelopes. *)
Lemma run_drain (k : nat) (rest : list V) :
  length rest <= k ->
  let (results, st) := run V dumps loads (repeat (OpPop 100%Z) k)
                            (store_of dumps rest) in
  concat results = rest /\ st = [].
Proof.
  revert rest; induction k as [|k IH]; intros rest Hlen.
  - destruct rest; [split; reflexivity | simpl in Hlen; lia].
  - simpl. rewrite pop_store_of by (assumption || lia).
    specialize (IH (skipn 100 rest)).
    destruct (run V dumps loads (repeat (OpPop 100%Z) k) _) as [results st].
    destruct IH as [H1 H2]; [rewrite length_skipn; lia|].
    split; [|exact H2]. cbn [concat messages]. rewrite H1. apply firstn_skipn.
Qed.

End TraceFacts.

(** C2. With envelopes stored as non-empty JSON texts that decode back:
    (1) two successive pops [pop n] then [pop m] on a store of distinct
    envelopes return no envelope in both results; (2) after any sequence of
    appends and pops, everything popped so far followed by what is still
    stored (oldest first) is exactly the appended sequence, so no envelope
    is lost or duplicated; (3) popping until the store is empty (here
    [pop 100] once per appended envelope) makes the union of all pop results
    exactly the appended envelopes, in append order. *)
Theorem pops_disjoint_and_complete {V} (dumps : V -> string)
  (loads : string -> option V)
  (Hrt : forall e, loads (dumps e) = Some e) (Hne : forall e, dumps e <> "") :
  (forall hist n m b1 st1 b2 st2,
     NoDup hist ->
     pop V loads n (store_of dumps hist) = (Ok b1, st1) ->
     pop V loads m st1 = (Ok b2, st2) ->
     forall e, In e (messages b1) -> ~ In e (messages b2))
  /\ (forall ops,
        let (results, st) := run V dumps loads ops [] in
        exists rest, st = store_of dumps rest
                /\ appended ops = concat results ++ rest)
  /\ (forall ops,
        let (results, st) :=
          run V dumps loads (ops ++ repeat (OpPop 100%Z) (length (appended ops))) [] in
        concat results = appended ops /\ st = []).
Proof.
  split; [|split].
  - intros hist n m b1 st1 b2 st2 Hnd H1 H2 e In1 In2.
    pose proof (pop_ok_accepted _ _ _ _ _ H1) as Hn.
    pose proof (pop_ok_accepted _ _ _ _ _ H2) as Hm.
    rewrite pop_store_of in H1 by assumption.
    injection H1 as <- <-.
    rewrite pop_store_of in H2 by assumption.
    injection H2 as <- <-. simpl in In1, In2.
    rewrite <- (firstn_skipn (Z.to_nat n) hist) in Hnd.
    apply (NoDup_app_disjoint _ _ e Hnd In1).
    rewrite <- (firstn_skipn (Z.to_nat m) (skipn (Z.to_nat n) hist)).
    apply in_app_iff. left. exact In2.
  - intro ops. exact (run_partition V dumps loads Hrt Hne ops []).
  - intro ops. rewrite run_app.
    pose proof (run_partition V dumps loads Hrt Hne ops []) as Hp.
    destruct (run V dumps loads ops (store_of dumps [])) as [r1 s1] eqn:E1.
    change (store_of dumps []) with (@nil string) in E1. rewrite E1.
    destruct Hp as [rest [-> Hrest]].
    pose proof (run_drain V dumps loads Hrt Hne (length (appended ops)) rest)
      as Hd.
    destruct (run V dumps loads _ (store_of dumps rest)) as [r2 s2].
    destruct Hd as [Hc Hs].
    + simpl in Hrest. rewrite Hrest, length_app. lia.
    + split; [|exact Hs]. rewrite concat_app, Hc. simpl in Hrest.
      symmetry. exact Hrest.
Qed.

Lemma pops_disjoint_and_complete_witness :
  let (results, st) :=
    run string dumps_tag loads_tag
      ([OpAppend "a"; OpAppend "b"; OpPop 1%Z; OpAppend "c"]
       ++ repeat (OpPop 100%Z) 3) [] in
  concat results = ["a"; "b"; "c"] /\ st = [].
Proof.
  exact (proj2 (proj2 (pops_disjoint_and_complete dumps_tag loads_tag
           (fun e => eq_refl) (fun e H => ltac:(discriminate H))))
           [OpAppend "a"; OpAppend "b"; OpPop 1%Z; OpAppend "c"]).
Defined.

(* ------------------------------------------------------------------ *)
(** ** C3: peek has no effect and lists the most recent first *)

Lemma lrange_map {A B} (f : A -> B) (l : list A) (start stop : Z) :
  lrange (map f l) start stop = map f (lrange l start stop).
Proof.
  unfold lrange. rewrite length_map.
  destruct (_ || _); [reflexivity|].
  rewrite skipn_map, firstn_map. reflexivity.
Qed.

Lemma lrange_infix {A} (l : list A) (start stop : Z) :
  exists pre post, l = pre ++ lrange l start stop ++ post.
Proof.
  unfold lrange. cbv zeta. destruct (_ || _).
  - exists l, []. rewrite app_nil_r. reflexivity.
  - match goal with
    | |- exists _ _, _ = _ ++ firstn ?m (skipn ?k _) ++ _ =>
        exists (firstn k l), (skipn m (skipn k l));
        rewrite (firstn_skipn m (skipn k l)), firstn_skipn; reflexivity
    end.
Qed.

Lemma lrange_nil {A} (start stop : Z) : lrange (@nil A) start stop = [].
Proof.
  unfold lrange. destruct (_ || _); [reflexivity|].
  rewrite skipn_nil, firstn_nil. reflexivity.
Qed.

Lemma two63 : (2^63 = 9223372036854775808)%Z.
Proof. reflexivity. Qed.

Lemma int64_ok_spec (z : Z) : int64_ok z = true <-> (- 2^63 <= z < 2^63)%Z.
Proof.
  unfold int64_ok. rewrite Bool.andb_true_iff, Z.leb_le, Z.ltb_lt. reflexivity.
Qed.

(** Within the signed 64-bit range, the LRANGE command answers. *)
Lemma int64_ok_window (start stop : Z) :
  (- 2^63 <= start < 2^63)%Z -> (- 2^63 <= stop)%Z -> (stop <= 99)%Z ->
  int64_ok start && int64_ok stop = true.
Proof.
  intros H1 H2 H3. apply Bool.andb_true_iff.
  rewrite !int64_ok_spec. rewrite two63 in *. lia.
Qed.

Lemma nonempty_map {V} (dumps : V -> string) (Hne : forall e, dumps e <> "")
  (es : list V) : nonempty (map dumps es) = map dumps es.
Proof.
  induction es as [|e es IH]; [reflexivity|].
  simpl. destruct (String.eqb_spec (dumps e) "") as [E|E].
  - exfalso. exact (Hne e E).
  - simpl. rewrite IH. reflexivity.
Qed.

(** C3. For a store holding the envelopes [hist] (appended oldest first)
    and a valid window (FastAPI accepts [end <= 99] and any [start]; Redis
    accepts indices in the signed 64-bit range): peek
    answers with the envelopes of the window taken from the newest-first
    listing [rev hist], which is a contiguous run of that listing (so they
    come most recent first), leaves the store identical (hence [llen]
    unchanged), and on an empty store answers with the empty list. *)
Theorem peek_pure_newest_first {V} (dumps : V -> string)
  (loads : string -> option V)
  (Hrt : forall e, loads (dumps e) = Some e) (Hne : forall e, dumps e <> "")
  (hist : list V) (start stop : Z) (Hstop : (- 2^63 <= stop <= 99)%Z)
  (Hstart : (- 2^63 <= start < 2^63)%Z) :
  let msgs := lrange (rev hist) start stop in
  peek V loads start stop (store_of dumps hist)
    = (Ok (MessagesBody msgs (Z.of_nat (length msgs))), store_of dumps hist)
  /\ (exists pre post, rev hist = pre ++ msgs ++ post)
  /\ (hist = [] -> msgs = []).
Proof.
  cbv zeta. split; [|split].
  - unfold peek, peek_handler, lrange_cmd, query_ok. simpl andb.
    replace (Z.leb stop 99) with true by (symmetry; apply Z.leb_le; apply Hstop).
    simpl negb. cbv iota.
    rewrite int64_ok_window
      by first [exact Hstart | exact (proj1 Hstop) | exact (proj2 Hstop)].
    cbv iota.
    rewrite store_of_rev, <- map_rev, lrange_map, nonempty_map by exact Hne.
    unfold messages_response. rewrite loads_all_map by exact Hrt.
    reflexivity.
  - apply lrange_infix.
  - intros ->. apply lrange_nil.
Qed.

Lemma peek_pure_newest_first_witness :
  (- 2^63 <= 1 <= 99)%Z /\ (- 2^63 <= 0 < 2^63)%Z /\
  peek string loads_tag 0 1 (store_of dumps_tag ["a"; "b"; "c"])
    = (Ok (MessagesBody ["c"; "b"] 2), store_of dumps_tag ["a"; "b"; "c"]).
Proof.
  assert (H1 : (- 2^63 <= 1 <= 99)%Z) by (rewrite two63; lia).
  assert (H0 : (- 2^63 <= 0 < 2^63)%Z) by (rewrite two63; lia).
  split; [exact H1|]. split; [exact H0|].
  exact (proj1 (peek_pure_newest_first dumps_tag loads_tag
           (fun e => eq_refl) (fun e H => ltac:(discriminate H))
           ["a"; "b"; "c"] 0 1 H1 H0)).
Defined.

(* ------------------------------------------------------------------ *)
(** ** C9: [count] matches [messages]; empty and nil entries are dropped *)

Lemma loads_all_length {V} (loads : string -> option V) (xs : list string)
  (vs : list V) :
  loads_all V loads xs = Some vs -> length vs = length xs.
Proof.
  revert vs; induction xs as [|x xs IH]; intros vs H; simpl in H.
  - injection H as <-. reflexivity.
  - destruct (loads x); [|discriminate].
    destruct (loads_all V loads xs) eqn:E; [|discriminate].
    injection H as <-. simpl. f_equal. apply IH. reflexivity.
Qed.

Lemma present_no_empty (rs : list (option string)) : ~ In "" (present rs).
Proof.
  unfold present. rewrite in_flat_map. intros [r [_ Hr]].
  destruct r as [s|]; simpl in Hr; [|exact Hr].
  destruct (String.eqb_spec s "") as [E|E]; simpl in Hr; [exact Hr|].
  destruct Hr as [Hr|Hr]; [apply E; exact Hr | exact Hr].
Qed.

Lemma nonempty_no_empty (items : list string) : ~ In "" (nonempty items).
Proof.
  unfold nonempty. rewrite filter_In. intros [_ H]. discriminate H.
Qed.

Lemma messages_response_ok {V} (loads : string -> option V) raw b :
  messages_response V loads raw = Ok b ->
  count b = Z.of_nat (length (messages b))
  /\ loads_all V loads raw = Some (messages b)
  /\ length (messages b) = length raw.
Proof.
  unfold messages_response. destruct (loads_all V loads raw) eqn:E;
    intro H; [|discriminate].
  injection H as <-. simpl. split; [reflexivity|].
  split; [reflexivity|]. apply (loads_all_length loads). exact E.
Qed.

(** C9. Whenever pop or peek answers with a body, its [count] is the
    length of its [messages], and the messages are the decodings, one for
    one and in order, of exactly the non-empty raw entries: nil replies of
    RPOP (list exhausted) and empty strings are dropped, never decoded. *)
Theorem messages_count_consistent {V} (loads : string -> option V) :
  (forall n st b st',
     pop V loads n st = (Ok b, st') ->
     count b = Z.of_nat (length (messages b))
     /\ exists replies, rpop_n (Z.to_nat n) st = (replies, st')
          /\ loads_all V loads (present replies) = Some (messages b)
          /\ length (messages b) = length (present replies)
          /\ ~ In "" (present replies))
  /\ (forall start stop st b st',
     peek V loads start stop st = (Ok b, st') ->
     count b = Z.of_nat (length (messages b))
     /\ loads_all V loads (nonempty (lrange st start stop)) = Some (messages b)
     /\ length (messages b) = length (nonempty (lrange st start stop))
     /\ ~ In "" (nonempty (lrange st start stop))).
Proof.
  split.
  - intros n st b st' H. unfold pop, pop_handler in H.
    destruct (negb _); [discriminate|].
    destruct (rpop_n (Z.to_nat n) st) as [replies st1] eqn:E.
    injection H as Hr <-.
    apply messages_response_ok in Hr as [H1 [H2 H3]].
    split; [exact H1|]. exists replies.
    split; [reflexivity|]. split; [exact H2|]. split; [exact H3|].
    apply present_no_empty.
  - intros start stop st b st' H. unfold peek, peek_handler, lrange_cmd in H.
    destruct (negb _); [discriminate|].
    destruct (_ && _); [|discriminate H].
    injection H as Hr _.
    apply messages_response_ok in Hr as [H1 [H2 H3]].
    split; [exact H1|]. split; [exact H2|]. split; [exact H3|].
    apply nonempty_no_empty.
Qed.

Lemma messages_count_consistent_witness :
  pop string (fun s => Some s) 5 ["b"; ""; "a"]
    = (Ok (MessagesBody ["a"; "b"] 2), [])
  /\ count (MessagesBody ["a"; "b"] 2) = Z.of_nat (length ["a"; "b"]).
Proof.
  split; [reflexivity|].
  exact (proj1 (proj1 (messages_count_consistent (fun s => Some s))
           5%Z ["b"; ""; "a"] (MessagesBody ["a"; "b"] 2) [] eq_refl)).
Defined.

(* ------------------------------------------------------------------ *)
(** ** C4: health never raises and reports each probe *)

Example zstr_values : zstr 42 = "42" /\ zstr (-3) = "-3" /\ zstr 0 = "0".
Proof. repeat split; reflexivity. Qed.

(** C4. For every outcome of the Redis ping and of the connector's
    [GET /status], health answers with a body (it never raises): status
    "healthy" exactly when both probes succeed and "degraded" otherwise,
    each probe reported "ok" when it succeeded and "error" when it failed
    (keys "redis" for the store, "baileys" for the connector). *)
Theorem health_never_raises (ping_ok : bool) (get : connector_get) :
  let conn_ok := match get "/status" with CReply _ => true | _ => false end in
  exists fs,
    health ping_ok get = Ok (JObj fs)
    /\ (dict_get fs "status" = JStr "healthy"
          <-> ping_ok = true /\ conn_ok = true)
    /\ (dict_get fs "status" = JStr "degraded"
          <-> ping_ok = false \/ conn_ok = false)
    /\ dict_get fs "redis" = JStr (if ping_ok then "ok" else "error")
    /\ dict_get fs "baileys" = JStr (if conn_ok then "ok" else "error").
Proof.
  cbv zeta. unfold health, baileys_get, call_result.
  destruct ping_ok, (get "/status"); eexists; (split; [reflexivity|]);
    simpl; intuition discriminate.
Qed.

(* ------------------------------------------------------------------ *)
(** ** C5: how connector failures reach the caller *)

(** The exception a failed connector call raises, if any. *)
Lemma call_result_failure (r : conn_result) :
  (forall j, r <> CReply j) -> exists e, call_result r = Uncaught e.
Proof.
  destruct r as [j|c| |]; intro H.
  - exfalso. exact (H j eq_refl).
  - eexists; reflexivity.
  - eexists; reflexivity.
  - eexists; reflexivity.
Qed.

(** C5 (counterexample). The claim that every connector failure of a
    connection-bound operation reaches the caller as 503 fails: an
    unreachable connector makes [send_text] raise out of the handler
    (served as 500), and a 404 from the connector makes [get_qrcode]
    answer 404. *)
Lemma connector_failure_not_503 :
  let body := JObj [("jid", JStr "972501234567"); ("text", JStr "hi")] in
  served_status (send_text (fun _ _ => CUnreachable) body) = 500%Z
  /\ served_status (get_qrcode (fun _ => CStatus 404) (fun _ => None)) = 404%Z
  /\ 500%Z <> 503%Z /\ 404%Z <> 503%Z.
Proof. repeat split; discriminate. Qed.

(** C5 (amended). No connector failure is swallowed: [status] turns every
    failure of [GET /status] into 503; [get_qrcode] turns a connector error
    status [c] into an HTTP error [c] and an unreachable connector or a
    non-JSON reply into 503; each send operation (text, image, buttons,
    list, template, reaction) lets the connector exception escape the
    handler unchanged (served as 500). *)
Theorem connector_failure_reporting :
  (forall get, (forall j, get "/status" <> CReply j) ->
     status get = HttpErr 503%Z)
  /\ (forall get render c, get "/qrcode" = CStatus c ->
        get_qrcode get render = HttpErr c)
  /\ (forall get render,
        get "/qrcode" = CUnreachable \/ get "/qrcode" = CBadBody ->
        get_qrcode get render = HttpErr 503%Z)
  /\ (forall post body,
        (forall j, post "/send/text" body <> CReply j) ->
        send_text post body = call_result (post "/send/text" body)
        /\ exists e, send_text post body = Uncaught e)
  /\ (forall post body,
        (forall j, post "/send/image" body <> CReply j) ->
        exists e, send_image post body = Uncaught e)
  /\ (forall post body,
        (forall j, post "/send/buttons" body <> CReply j) ->
        exists e, send_buttons post body = Uncaught e)
  /\ (forall post body,
        (forall j, post "/send/list" body <> CReply j) ->
        exists e, send_list post body = Uncaught e)
  /\ (forall post body,
        (forall j, post "/send/template" body <> CReply j) ->
        exists e, send_template post body = Uncaught e)
  /\ (forall post body,
        (forall j, post "/send/reaction" body <> CReply j) ->
        exists e, send_reaction post body = Uncaught e).
Proof.
  refine (conj _ (conj _ (conj _ (conj _ (conj _ (conj _ (conj _ (conj _ _)))))))).
  - intros get H. unfold status, baileys_get.
    destruct (call_result_failure _ H) as [e ->]. reflexivity.
  - intros get render c H. unfold get_qrcode, baileys_get. rewrite H.
    reflexivity.
  - intros get render [H|H]; unfold get_qrcode, baileys_get; rewrite H;
      reflexivity.
  - intros post body H. split; [reflexivity|]. apply call_result_failure, H.
  - intros post body H. apply call_result_failure, H.
  - intros post body H. apply call_result_failure, H.
  - intros post body H. apply call_result_failure, H.
  - intros post body H. apply call_result_failure, H.
  - intros post body H. apply call_result_failure, H.
Qed.

Lemma connector_failure_reporting_witness :
  status (fun _ => CUnreachable) = HttpErr 503%Z
  /\ get_qrcode (fun _ => CStatus 404) (fun _ => None) = HttpErr 404%Z.
Proof.
  destruct connector_failure_reporting as [Hs [Hq _]].
  split.
  - apply Hs. intros j H. discriminate H.
  - apply Hq. reflexivity.
Defined.

Lemma health_never_raises_witness :
  health false (fun _ => CReply (JObj []))
    = Ok (JObj [("status", JStr "degraded"); ("redis", JStr "error");
                ("baileys", JStr "ok")]).
Proof.
  destruct (health_never_raises false (fun _ => CReply (JObj [])))
    as [fs [H _]].
  rewrite H. unfold health in H. simpl in H. injection H as <-. reflexivity.
Defined.

(* ------------------------------------------------------------------ *)
(** ** C7: query parameter bounds *)

Lemma query_ok_range (lo hi v : Z) :
  query_ok (Some lo) (Some hi) v = true <-> (lo <= v <= hi)%Z.
Proof.
  unfold query_ok. rewrite Bool.andb_true_iff, !Z.leb_le. reflexivity.
Qed.

Lemma query_ok_upper (hi v : Z) : query_ok None (Some hi) v = true <-> (v <= hi)%Z.
Proof. unfold query_ok. simpl. apply Z.leb_le. Qed.

Lemma query_ok_false (ge le : option Z) (v : Z) :
  query_ok ge le v <> true -> query_ok ge le v = false.
Proof. destruct (query_ok ge le v); [intro H; exfalso; apply H|]; reflexivity. Qed.

(** C7. Each bound is checked before the handler runs: out of bounds the
    answer is 422 whatever the connector or the store hold (the connector
    is not asked, the store is returned unchanged); in bounds the handler
    runs.  stream_read: [1 <= count <= 100]; trace: [1 <= limit <= 500];
    peek: [end <= 99] ([start] unbounded); pop: [1 <= count <= 100]. *)
Theorem query_bounds_enforced :
  (forall count, ~ (1 <= count <= 100)%Z ->
     forall get lastId, stream_read get count lastId = HttpErr 422%Z)
  /\ (forall count, (1 <= count <= 100)%Z ->
     forall get lastId,
       stream_read get count lastId = stream_read_handler get count lastId)
  /\ (forall limit, ~ (1 <= limit <= 500)%Z ->
     forall get jid, trace_conversation get jid limit = HttpErr 422%Z)
  /\ (forall limit, (1 <= limit <= 500)%Z ->
     forall get jid,
       trace_conversation get jid limit = trace_handler get jid limit)
  /\ (forall V loads start stop st, ~ (stop <= 99)%Z ->
       peek V loads start stop st = (HttpErr 422%Z, st))
  /\ (forall V loads start stop st, (stop <= 99)%Z ->
       peek V loads start stop st = peek_handler V loads start stop st)
  /\ (forall V loads n st, ~ (1 <= n <= 100)%Z ->
       pop V loads n st = (HttpErr 422%Z, st))
  /\ (forall V loads n st, (1 <= n <= 100)%Z ->
       pop V loads n st = pop_handler V loads n st).
Proof.
  refine (conj _ (conj _ (conj _ (conj _ (conj _ (conj _ (conj _ _))))))).
  - intros count H get lastId. unfold stream_read.
    rewrite query_ok_false; [reflexivity|]. rewrite query_ok_range. exact H.
  - intros count H get lastId. unfold stream_read.
    apply query_ok_range in H. rewrite H. reflexivity.
  - intros limit H get jid. unfold trace_conversation.
    rewrite query_ok_false; [reflexivity|]. rewrite query_ok_range. exact H.
  - intros limit H get jid. unfold trace_conversation.
    apply query_ok_range in H. rewrite H. reflexivity.
  - intros V loads start stop st H. unfold peek.
    rewrite query_ok_false; [reflexivity|]. rewrite query_ok_upper. exact H.
  - intros V loads start stop st H. unfold peek.
    apply query_ok_upper in H. rewrite H. reflexivity.
  - intros V loads n st H. unfold pop.
    rewrite query_ok_false; [reflexivity|]. rewrite query_ok_range. exact H.
  - intros V loads n st H. unfold pop.
    apply query_ok_range in H. rewrite H. reflexivity.
Qed.

Lemma query_bounds_enforced_witness :
  stream_read (fun _ => CUnreachable) 101 "0" = HttpErr 422%Z
  /\ trace_conversation (fun _ => CReply JNull) "972501234567" 500
     = or_503 (Ok JNull)
  /\ pop string (fun s => Some s) 0 ["a"] = (HttpErr 422%Z, ["a"]).
Proof.
  destruct query_bounds_enforced as [H1 [_ [_ [H4 [_ [_ [H7 _]]]]]]].
  split; [|split].
  - apply H1. lia.
  - rewrite (H4 500%Z ltac:(lia)). reflexivity.
  - apply H7. lia.
Defined.

(* ------------------------------------------------------------------ *)
(** ** C8: queue_status reports the length and changes nothing *)

(** C8. [queue_status] answers with LLEN of the queue, i.e. the number of
    stored envelopes, and returns the store unchanged; the legacy
    [queue_status] of main.old.py answers with the [length] the connector's
    stream info reports. *)
Theorem queue_status_is_length :
  (forall st, queue_status st
                = (Ok (QueueStatusBody (Z.of_nat (llen st)) QUEUE_KEY), st))
  /\ (forall V (dumps : V -> string) hist,
        llen (store_of dumps hist) = length hist)
  /\ (forall get fs v,
        get "/messages/stream/info" = CReply (JObj fs) ->
        dict_lookup fs "length" = Some v ->
        queue_status_legacy get = Ok (JObj [("queue_length", v)])).
Proof.
  split; [|split].
  - intro st. reflexivity.
  - intros V dumps hist. unfold llen.
    rewrite store_of_rev, length_rev, length_map. reflexivity.
  - intros get fs v Hget Hlen. unfold queue_status_legacy, baileys_get.
    rewrite Hget. simpl. rewrite Hlen. reflexivity.
Qed.

Lemma queue_status_is_length_witness :
  queue_status_legacy
    (fun _ => CReply (JObj [("length", JNum 3); ("firstEntry", JNull)]))
  = Ok (JObj [("queue_length", JNum 3)]).
Proof.
  destruct queue_status_is_length as [_ [_ H]].
  apply (H _ [("length", JNum 3); ("firstEntry", JNull)]); reflexivity.
Defined.

(* ------------------------------------------------------------------ *)
(** ** C10: a missing QR is not an error *)

(** C10. When the connector answers [GET /qrcode] with a JSON object, and
    the QR library renders its [qr] value whenever that value is truthy,
    [get_qrcode] answers with a body: [qr] passed through as the connector
    sent it (null when absent), [status] likewise, and [qr_image_base64]
    a string (the rendered PNG in base64) exactly when [qr] is truthy, null
    otherwise. *)
Theorem get_qrcode_optional_image (get : connector_get)
  (render : json -> option string) (fs : list (string * json))
  (Hget : get "/qrcode" = CReply (JObj fs))
  (Hrender : truthy (dict_get fs "qr") = true ->
             render (dict_get fs "qr") <> None) :
  exists img,
    get_qrcode get render
      = Ok (JObj [("qr", dict_get fs "qr"); ("qr_image_base64", img);
                  ("status", dict_get fs "status")])
    /\ (img <> JNull <-> truthy (dict_get fs "qr") = true)
    /\ (truthy (dict_get fs "qr") = true ->
        exists png, img = JStr png /\ render (dict_get fs "qr") = Some png).
Proof.
  unfold get_qrcode, baileys_get. rewrite Hget. cbn [call_result].
  destruct (truthy (dict_get fs "qr")) eqn:Ht.
  - destruct (render (dict_get fs "qr")) as [png|] eqn:Hr.
    + exists (JStr png). simpl. split; [reflexivity|]. split.
      * split; [reflexivity | intros _ H; discriminate H].
      * intros _. exists png. split; reflexivity.
    + exfalso. apply (Hrender eq_refl). reflexivity.
  - exists JNull. simpl. split; [reflexivity|]. split.
    + split; [intro H; exfalso; apply H; reflexivity | discriminate].
    + discriminate.
Qed.

Lemma get_qrcode_optional_image_witness :
  get_qrcode (fun _ => CReply (JObj [("status", JStr "connected")]))
             (fun _ => Some "iVBORw0KGgo=")
  = Ok (JObj [("qr", JNull); ("qr_image_base64", JNull);
              ("status", JStr "connected")]).
Proof.
  destruct (get_qrcode_optional_image
              (fun _ => CReply (JObj [("status", JStr "connected")]))
              (fun _ => Some "iVBORw0KGgo=") [("status", JStr "connected")]
              eq_refl (fun _ => ltac:(discriminate)))
    as [img [H [Hiff _]]].
  rewrite H. simpl in Hiff.
  destruct img; try reflexivity; exfalso; destruct Hiff as [Hi _];
    discriminate (Hi ltac:(discriminate)).
Defined.

(* ------------------------------------------------------------------ *)
(** ** C6: webhook retries *)

Section Delivery.
Variable p : retry_policy.
Variable endpoint : nat -> bool.

Lemma deliver_from_attempts (k left : nat) :
  attempts (deliver_from p endpoint k left) <= left.
Proof.
  revert k; induction left as [|left IH]; intro k; simpl; [lia|].
  destruct (endpoint k); simpl; [lia|].
  destruct left as [|l]; [simpl; lia|].
  specialize (IH (S k)).
  remember (deliver_from p endpoint (S k) (S l)) as d eqn:Ed.
  simpl. lia.
Qed.

(** The waits are [backoff p k], [backoff p (k+1)], ... *)
Lemma deliver_from_waits (k left : nat) :
  exists n, waits (deliver_from p endpoint k left) = map (backoff p) (seq k n).
Proof.
  revert k; induction left as [|left IH]; intro k; simpl.
  - exists 0. reflexivity.
  - destruct (endpoint k); [exists 0; reflexivity|].
    destruct left as [|l]; [exists 0; reflexivity|].
    destruct (IH (S k)) as [n Hn]. exists (S n).
    remember (deliver_from p endpoint (S k) (S l)) as d eqn:Ed.
    simpl. rewrite Hn. reflexivity.
Qed.

Lemma deliver_from_all_fail (k left : nat) :
  (forall j, k <= j < k + left -> endpoint j = false) ->
  outcome (deliver_from p endpoint k left) = Exhausted
  /\ delivered (deliver_from p endpoint k left) = 0
  /\ attempts (deliver_from p endpoint k left) = left.
Proof.
  revert k; induction left as [|left IH]; intros k H; simpl;
    [repeat split|].
  rewrite (H k) by lia.
  destruct left as [|l]; [simpl; repeat split|].
  destruct (IH (S k)) as [H1 [H2 H3]]; [intros j Hj; apply H; lia|].
  remember (deliver_from p endpoint (S k) (S l)) as d eqn:Ed.
  simpl. rewrite H1, H2, H3. repeat split.
Qed.

Hypothesis Hbase : 0 < base_interval p.
Hypothesis Hfactor : 2 <= backoff_factor p.

Lemma backoff_lt (k : nat) : backoff p k < backoff p (S k).
Proof.
  unfold backoff. rewrite Nat.pow_succ_r'.
  assert (0 < backoff_factor p ^ k) by (apply Nat.neq_0_lt_0, Nat.pow_nonzero; lia).
  nia.
Qed.

Lemma backoff_seq_increasing (k n : nat) :
  strictly_increasing (map (backoff p) (seq k n)).
Proof.
  revert k; induction n as [|n IH]; intro k; simpl; [exact I|].
  destruct n as [|n]; simpl; [exact I|].
  split; [apply backoff_lt|]. apply (IH (S k)).
Qed.

End Delivery.

(** C6. For any policy with a positive base interval and a backoff factor
    of at least 2: an endpoint failing attempts 0 and 1 and acknowledging
    attempt 2 (with a cap of at least 3 attempts) gets exactly one recorded
    delivery after 3 attempts, the two waits [base] then [base * factor]
    strictly increasing; in general at most [max_attempts] attempts are
    made and the waits strictly increase; if every allowed attempt fails
    the event is Exhausted with no delivery after exactly [max_attempts]
    attempts; and dispatching leaves the Durable Store as it was. *)
Theorem webhook_retry_backoff (p : retry_policy) (endpoint : nat -> bool)
  (st : rlist)
  (Hbase : 0 < base_interval p) (Hfactor : 2 <= backoff_factor p) :
  (3 <= max_attempts p ->
   endpoint 0 = false -> endpoint 1 = false -> endpoint 2 = true ->
   deliver p endpoint = Delivery Acked [backoff p 0; backoff p 1] 3 1
   /\ backoff p 0 < backoff p 1)
  /\ attempts (deliver p endpoint) <= max_attempts p
  /\ strictly_increasing (waits (deliver p endpoint))
  /\ ((forall k, k < max_attempts p -> endpoint k = false) ->
      outcome (deliver p endpoint) = Exhausted
      /\ delivered (deliver p endpoint) = 0
      /\ attempts (deliver p endpoint) = max_attempts p)
  /\ fst (dispatch_event p endpoint st) = st.
Proof.
  unfold deliver. split; [|split; [|split; [|split]]].
  - intros Hmax H0 H1 H2. split; [|apply backoff_lt; assumption].
    destruct p as [b f m]. cbn [max_attempts] in Hmax |- *.
    destruct m as [|[|[|m]]]; [lia|lia|lia|].
    simpl. rewrite H0, H1, H2. reflexivity.
  - apply deliver_from_attempts.
  - destruct (deliver_from_waits p endpoint 0 (max_attempts p)) as [n ->].
    apply backoff_seq_increasing; assumption.
  - intro H. apply deliver_from_all_fail. intros j Hj. apply H. lia.
  - reflexivity.
Qed.

Lemma webhook_retry_backoff_witness :
  deliver (RetryPolicy 1 2 5) (fun k => Nat.eqb k 2)
    = Delivery Acked [1; 2] 3 1 /\ 1 < 2.
Proof.
  exact (proj1 (webhook_retry_backoff (RetryPolicy 1 2 5) (fun k => Nat.eqb k 2)
           [] ltac:(simpl; lia) ltac:(simpl; lia))
           ltac:(simpl; lia) eq_refl eq_refl eq_refl).
Defined.

(* ================================================================== *)
(** * Further properties of the endpoints *)

(* ------------------------------------------------------------------ *)
(** ** [GET /qrcode/image] *)




(* ------------------------------------------------------------------ *)
(** ** [GET /qrcode] in the two versions *)



(* ------------------------------------------------------------------ *)
(** ** [DELETE /logout] *)



(* ------------------------------------------------------------------ *)
(** ** Legacy [GET /messages/status] *)



(* ------------------------------------------------------------------ *)
(** ** [POST /send/buttons] request validation *)



(* ------------------------------------------------------------------ *)
(** ** LRANGE windows *)

Lemma lrange_nonneg {A} (l : list A) (s e : Z) :
  (0 <= s)%Z -> (0 <= e)%Z ->
  lrange l s e = firstn (Z.to_nat e + 1 - Z.to_nat s) (skipn (Z.to_nat s) l).
Proof.
  intros Hs He. unfold lrange. cbv zeta.
  assert (Hs' : (s <? 0)%Z = false) by (apply Z.ltb_ge; lia).
  assert (He' : (e <? 0)%Z = false) by (apply Z.ltb_ge; lia).
  repeat (rewrite Hs' || rewrite He'; cbv beta iota).
  destruct (Z.ltb_spec e s); cbn [orb].
  - replace (Z.to_nat e + 1 - Z.to_nat s) with 0 by lia. reflexivity.
  - destruct (Z.leb_spec (Z.of_nat (length l)) s); cbv beta iota.
    + rewrite skipn_all2 by lia. rewrite firstn_nil. reflexivity.
    + destruct (Z.leb_spec (Z.of_nat (length l)) e).
      * rewrite !firstn_all2; [reflexivity | rewrite length_skipn; lia
                              | rewrite length_skipn; lia].
      * f_equal. lia.
Qed.

Lemma lrange_all {A} (l : list A) : lrange l 0 (-1) = l.
Proof.
  unfold lrange. cbv zeta.
  assert (H0 : (0 <? 0)%Z = false) by reflexivity.
  assert (H1 : (-1 <? 0)%Z = true) by reflexivity.
  repeat (rewrite H0 || rewrite H1; cbv beta iota).
  destruct (Z.ltb_spec (Z.of_nat (length l) + -1) 0); cbn [orb].
  - destruct l; [reflexivity | simpl length in *; lia].
  - destruct (Z.leb_spec (Z.of_nat (length l)) 0); [lia|].
    destruct (Z.leb_spec (Z.of_nat (length l)) (Z.of_nat (length l) + -1)); [lia|].
    cbv beta iota. simpl skipn. apply firstn_all2. lia.
Qed.

Lemma lrange_last {A} (l : list A) (k : Z) :
  (1 <= k)%Z -> lrange l (- k) (-1) = skipn (length l - Z.to_nat k) l.
Proof.
  intro Hk. unfold lrange. cbv zeta.
  replace (- k <? 0)%Z with true by (symmetry; apply Z.ltb_lt; lia).
  replace (-1 <? 0)%Z with true by reflexivity.
  cbv beta iota.
  destruct (Z.ltb_spec (Z.of_nat (length l) + - k) 0).
  - destruct (Z.ltb_spec (Z.of_nat (length l) + -1) 0); cbn [orb].
    + destruct l; [reflexivity | simpl length in *; lia].
    + destruct (Z.leb_spec (Z.of_nat (length l)) 0); [lia|].
      destruct (Z.leb_spec (Z.of_nat (length l)) (Z.of_nat (length l) + -1)); [lia|].
      cbv beta iota.
      replace (length l - Z.to_nat k) with 0 by lia. simpl skipn.
      apply firstn_all2. lia.
  - destruct (Z.ltb_spec (Z.of_nat (length l) + -1) (Z.of_nat (length l) + - k));
      [lia|].
    destruct (Z.leb_spec (Z.of_nat (length l)) (Z.of_nat (length l) + - k)); [lia|].
    cbn [orb].
    destruct (Z.leb_spec (Z.of_nat (length l)) (Z.of_nat (length l) + -1)); [lia|].
    cbv beta iota.
    replace (Z.to_nat (Z.of_nat (length l) + - k)) with (length l - Z.to_nat k)
      by lia.
    apply firstn_all2. rewrite length_skipn. lia.
Qed.

Lemma lrange_empty {A} (l : list A) (s e : Z) :
  (0 <= s)%Z -> ((0 <= e < s)%Z \/ (Z.of_nat (length l) <= s)%Z) ->
  lrange l s e = [].
Proof.
  intros Hs H. unfold lrange. cbv zeta.
  assert (Hs' : (s <? 0)%Z = false) by (apply Z.ltb_ge; lia).
  repeat (rewrite Hs'; cbv beta iota).
  destruct (Z.leb_spec (Z.of_nat (length l)) s).
  - rewrite Bool.orb_true_r. reflexivity.
  - destruct H as [H|H]; [|lia].
    replace (e <? 0)%Z with false by (symmetry; apply Z.ltb_ge; lia).
    cbv beta iota.
    replace (e <? s)%Z with true by (symmetry; apply Z.ltb_lt; lia).
    reflexivity.
Qed.

(** [peek] on a store of envelopes, with an accepted [end] and indices
    in the signed 64-bit range. *)
Lemma peek_store_of {V} (dumps : V -> string) (loads : string -> option V)
  (Hrt : forall e, loads (dumps e) = Some e) (Hne : forall e, dumps e <> "")
  (hist : list V) (start stop : Z) (Hstop : (- 2^63 <= stop <= 99)%Z)
  (Hstart : (- 2^63 <= start < 2^63)%Z) :
  peek V loads start stop (store_of dumps hist)
  = (Ok (MessagesBody (lrange (rev hist) start stop)
                      (Z.of_nat (length (lrange (rev hist) start stop)))),
     store_of dumps hist).
Proof.
  unfold peek, peek_handler, lrange_cmd, query_ok. simpl andb.
  replace (Z.leb stop 99) with true by (symmetry; apply Z.leb_le; apply Hstop).
  simpl negb. cbv iota.
  rewrite int64_ok_window
    by first [exact Hstart | exact (proj1 Hstop) | exact (proj2 Hstop)].
  cbv iota.
  rewrite store_of_rev, <- map_rev, lrange_map, nonempty_map by exact Hne.
  unfold messages_response. rewrite loads_all_map by exact Hrt.
  reflexivity.
Qed.

(** [peek?start=0&end=-1] returns every stored envelope, newest first,
    however many there are: the [le=99] bound on [end] does not bound the
    size of the answer. *)
Theorem peek_all_uncapped {V} (dumps : V -> string) (loads : string -> option V)
  (Hrt : forall e, loads (dumps e) = Some e) (Hne : forall e, dumps e <> "")
  (hist : list V) :
  peek V loads 0 (-1) (store_of dumps hist)
  = (Ok (MessagesBody (rev hist) (Z.of_nat (length hist))), store_of dumps hist).
Proof.
  rewrite peek_store_of by (assumption || (rewrite two63; lia)).
  rewrite lrange_all, length_rev. reflexivity.
Qed.

Lemma peek_all_uncapped_witness :
  peek string loads_tag 0 (-1) (store_of dumps_tag (map (fun i => zstr (Z.of_nat i)) (seq 0 120)))
  = (Ok (MessagesBody (rev (map (fun i => zstr (Z.of_nat i)) (seq 0 120))) 120),
     store_of dumps_tag (map (fun i => zstr (Z.of_nat i)) (seq 0 120))).
Proof.
  exact (peek_all_uncapped dumps_tag loads_tag
           (fun e => eq_refl) (fun e H => ltac:(discriminate H))
           (map (fun i => zstr (Z.of_nat i)) (seq 0 120))).
Defined.

(** [peek?start=0&end=e] with [0 <= e <= 99] returns the [e + 1] newest
    envelopes (all of them when fewer are stored), newest first. *)
Theorem peek_newest_prefix {V} (dumps : V -> string) (loads : string -> option V)
  (Hrt : forall e, loads (dumps e) = Some e) (Hne : forall e, dumps e <> "")
  (hist : list V) (e : Z) (He : (0 <= e <= 99)%Z) :
  peek V loads 0 e (store_of dumps hist)
  = (Ok (MessagesBody (firstn (Z.to_nat e + 1) (rev hist))
                      (Z.of_nat (Nat.min (Z.to_nat e + 1) (length hist)))),
     store_of dumps hist).
Proof.
  rewrite peek_store_of by (assumption || (rewrite two63; lia)).
  rewrite lrange_nonneg by lia.
  change (Z.to_nat 0) with 0. rewrite skipn_O, Nat.sub_0_r.
  rewrite length_firstn, length_rev. reflexivity.
Qed.

Lemma peek_newest_prefix_witness :
  (0 <= 1 <= 99)%Z /\
  peek string loads_tag 0 1 (store_of dumps_tag ["a"; "b"; "c"])
  = (Ok (MessagesBody ["c"; "b"] 2), store_of dumps_tag ["a"; "b"; "c"]).
Proof.
  split; [lia|].
  exact (peek_newest_prefix dumps_tag loads_tag
           (fun e => eq_refl) (fun e H => ltac:(discriminate H))
           ["a"; "b"; "c"] 1 ltac:(lia)).
Defined.

(** [peek?start=-k&end=-1] with [1 <= k <= 2^63] (so that [-k] is a
    signed 64-bit integer) returns the [k] oldest stored envelopes (all of
    them when fewer are stored), newest first: the next ones [pop] would
    take. *)
Theorem peek_oldest_suffix {V} (dumps : V -> string) (loads : string -> option V)
  (Hrt : forall e, loads (dumps e) = Some e) (Hne : forall e, dumps e <> "")
  (hist : list V) (k : Z) (Hk : (1 <= k <= 2^63)%Z) :
  peek V loads (- k) (-1) (store_of dumps hist)
  = (Ok (MessagesBody (rev (firstn (Z.to_nat k) hist))
                      (Z.of_nat (Nat.min (Z.to_nat k) (length hist)))),
     store_of dumps hist).
Proof.
  rewrite peek_store_of by (assumption || (rewrite two63; lia)).
  rewrite lrange_last by exact (proj1 Hk).
  rewrite skipn_rev, length_rev.
  replace (length hist - (length hist - Z.to_nat k)) with
    (Nat.min (Z.to_nat k) (length hist)) by lia.
  rewrite <- firstn_min, length_rev, length_firstn. reflexivity.
Qed.

Lemma peek_oldest_suffix_witness :
  (1 <= 2 <= 2^63)%Z /\
  peek string loads_tag (-2) (-1) (store_of dumps_tag ["a"; "b"; "c"])
  = (Ok (MessagesBody ["b"; "a"] 2), store_of dumps_tag ["a"; "b"; "c"]).
Proof.
  assert (H2 : (1 <= 2 <= 2^63)%Z) by (rewrite two63; lia).
  split; [exact H2|].
  exact (peek_oldest_suffix dumps_tag loads_tag
           (fun e => eq_refl) (fun e H => ltac:(discriminate H))
           ["a"; "b"; "c"] 2 H2).
Defined.

(** A window of 64-bit indices with [0 <= end < start], or starting at or
    past the end of the store, is not an error: [peek] answers an empty
    list with count 0. *)
Theorem peek_empty_window {V} (dumps : V -> string) (loads : string -> option V)
  (Hrt : forall e, loads (dumps e) = Some e) (Hne : forall e, dumps e <> "")
  (hist : list V) (start stop : Z) (Hstart : (0 <= start < 2^63)%Z)
  (Hstop : (- 2^63 <= stop <= 99)%Z)
  (Hw : (0 <= stop < start)%Z \/ (Z.of_nat (length hist) <= start)%Z) :
  peek V loads start stop (store_of dumps hist)
  = (Ok (MessagesBody [] 0), store_of dumps hist).
Proof.
  rewrite peek_store_of
    by first [assumption | clear Hw; rewrite two63 in *; lia].
  rewrite lrange_empty; [reflexivity | exact (proj1 Hstart) |].
  rewrite length_rev. exact Hw.
Qed.

Lemma peek_empty_window_witness :
  (0 <= 5 < 2^63)%Z /\ (- 2^63 <= 9 <= 99)%Z /\
  ((0 <= 9 < 5)%Z \/ (Z.of_nat (length ["a"; "b"; "c"]) <= 5)%Z) /\
  peek string loads_tag 5 9 (store_of dumps_tag ["a"; "b"; "c"])
  = (Ok (MessagesBody [] 0), store_of dumps_tag ["a"; "b"; "c"]).
Proof.
  assert (H5 : (0 <= 5 < 2^63)%Z) by (rewrite two63; lia).
  assert (H9 : (- 2^63 <= 9 <= 99)%Z) by (rewrite two63; lia).
  split; [exact H5|]. split; [exact H9|]. split; [right; simpl; lia|].
  apply (peek_empty_window dumps_tag loads_tag
           (fun e => eq_refl) (fun e H => ltac:(discriminate H))
           ["a"; "b"; "c"] 5 9 H5 H9); right; simpl; lia.
Defined.



(* ------------------------------------------------------------------ *)
(** ** [pop] on an arbitrary store *)

Lemma present_map_Some_nonempty (xs : list string) :
  present (map Some xs) = nonempty xs.
Proof.
  induction xs as [|x xs IH]; [reflexivity|].
  simpl. rewrite IH. destruct (String.eqb x ""); reflexivity.
Qed.

Lemma rpop_n_any (k : nat) (st : rlist) :
  rpop_n k st
  = (map Some (firstn k (rev st)) ++ repeat None (k - length st),
     firstn (length st - k) st).
Proof.
  pose proof (rpop_n_rev k (rev st)) as H.
  rewrite rev_involutive, length_rev in H. rewrite H.
  rewrite skipn_rev, rev_involutive. reflexivity.
Qed.

Lemma pop_any {V} (loads : string -> option V) (st : rlist) (n : Z)
  (Hn : (1 <= n <= 100)%Z) :
  pop V loads n st
  = (messages_response V loads (nonempty (firstn (Z.to_nat n) (rev st))),
     firstn (length st - Z.to_nat n) st).
Proof.
  unfold pop, pop_handler.
  replace (query_ok (Some 1%Z) (Some 100%Z) n) with true
    by (symmetry; apply query_ok_range; exact Hn).
  simpl negb. cbv iota.
  rewrite rpop_n_any, present_app, present_repeat_None, app_nil_r,
    present_map_Some_nonempty.
  reflexivity.
Qed.

Lemma loads_all_fail {V} (loads : string -> option V) (xs : list string)
  (x : string) : In x xs -> loads x = None -> loads_all V loads xs = None.
Proof.
  induction xs as [|y xs IH]; intros Hin Hx; [destruct Hin|].
  simpl. destruct Hin as [->|Hin].
  - rewrite Hx. reflexivity.
  - destruct (loads y); [|reflexivity]. rewrite (IH Hin Hx). reflexivity.
Qed.

(** On any stored list, [pop n] removes the [min n L] entries at the tail
    whatever they hold, so [llen] drops by exactly that much; of the
    removed entries, the empty strings are dropped from the answer and
    the others are decoded in the order they were popped. *)
Theorem pop_removes_tail {V} (loads : string -> option V) (st : rlist) (n : Z)
  (Hn : (1 <= n <= 100)%Z) :
  pop V loads n st
  = (messages_response V loads (nonempty (firstn (Z.to_nat n) (rev st))),
     firstn (length st - Z.to_nat n) st)
  /\ llen (snd (pop V loads n st)) = length st - Nat.min (Z.to_nat n) (length st)
  /\ firstn (length st - Z.to_nat n) st
     ++ rev (firstn (Z.to_nat n) (rev st)) = st.
Proof.
  rewrite pop_any by exact Hn. refine (conj eq_refl (conj _ _)).
  - simpl snd. unfold llen. rewrite length_firstn. lia.
  - rewrite firstn_rev, rev_involutive.
    replace (length st - Nat.min (Z.to_nat n) (length st))
      with (length st - Z.to_nat n) by lia.
    apply firstn_skipn.
Qed.

Lemma pop_removes_tail_witness :
  (1 <= 2 <= 100)%Z /\
  pop string loads_tag 2 ["xa"; ""; "xb"]
  = (Ok (MessagesBody ["b"] 1), ["xa"]).
Proof.
  split; [lia|].
  exact (proj1 (pop_removes_tail loads_tag ["xa"; ""; "xb"] 2 ltac:(lia))).
Defined.

(** If one of the non-empty entries [pop] removes does not decode, the
    call fails with an uncaught JSONDecodeError (served as 500) and
    returns no message, yet all the popped entries are already gone from
    the store. *)
Theorem pop_decode_failure_loses_batch {V} (loads : string -> option V)
  (st : rlist) (n : Z) (Hn : (1 <= n <= 100)%Z) (x : string)
  (Hin : In x (firstn (Z.to_nat n) (rev st))) (Hx : x <> "")
  (Hbad : loads x = None) :
  pop V loads n st
  = (Uncaught JSONDecodeError, firstn (length st - Z.to_nat n) st)
  /\ llen (firstn (length st - Z.to_nat n) st)
     = length st - Nat.min (Z.to_nat n) (length st).
Proof.
  split.
  - rewrite pop_any by exact Hn. unfold messages_response.
    rewrite (loads_all_fail loads _ x); [reflexivity | | exact Hbad].
    unfold nonempty. apply filter_In. split; [exact Hin|].
    destruct (String.eqb_spec x ""); [contradiction | reflexivity].
  - unfold llen. rewrite length_firstn. lia.
Qed.

Lemma pop_decode_failure_loses_batch_witness :
  (1 <= 2 <= 100)%Z /\ In "bad" (firstn 2 (rev ["xa"; "bad"; "xb"])) /\
  "bad" <> "" /\ loads_strict "bad" = None /\
  pop string loads_strict 2 ["xa"; "bad"; "xb"]
  = (Uncaught JSONDecodeError, ["xa"]).
Proof.
  split; [lia|]. split; [simpl; tauto|]. split; [discriminate|].
  split; [reflexivity|].
  exact (proj1 (pop_decode_failure_loses_batch loads_strict ["xa"; "bad"; "xb"] 2
                  ltac:(lia) "bad" ltac:(simpl; tauto) ltac:(discriminate)
                  eq_refl)).
Defined.

(* ------------------------------------------------------------------ *)
(** ** Connector failures on the stream endpoints of main.old.py *)



(* ------------------------------------------------------------------ *)
(** ** [pop] followed by [peek] *)

(** After an accepted [pop n] on a store of envelopes, [peek?start=0&end=-1]
    shows exactly the envelopes that were not popped, newest first. *)
Theorem pop_then_peek_rest {V} (dumps : V -> string) (loads : string -> option V)
  (Hrt : forall e, loads (dumps e) = Some e) (Hne : forall e, dumps e <> "")
  (hist : list V) (n : Z) (Hn : (1 <= n <= 100)%Z) :
  let rest := skipn (Z.to_nat n) hist in
  peek V loads 0 (-1) (snd (pop V loads n (store_of dumps hist)))
  = (Ok (MessagesBody (rev rest) (Z.of_nat (length rest))), store_of dumps rest)
  /\ firstn (Z.to_nat n) hist ++ rest = hist.
Proof.
  cbv zeta. split; [|apply firstn_skipn].
  rewrite pop_store_of by assumption. simpl snd.
  rewrite peek_store_of by (assumption || (rewrite two63; lia)).
  rewrite lrange_all, length_rev. reflexivity.
Qed.

Lemma pop_then_peek_rest_witness :
  (1 <= 2 <= 100)%Z /\
  peek string loads_tag 0 (-1)
    (snd (pop string loads_tag 2 (store_of dumps_tag ["a"; "b"; "c"])))
  = (Ok (MessagesBody ["c"] 1), store_of dumps_tag ["c"]).
Proof.
  split; [lia|].
  exact (proj1 (pop_then_peek_rest dumps_tag loads_tag
           (fun e => eq_refl) (fun e H => ltac:(discriminate H))
           ["a"; "b"; "c"] 2 ltac:(lia))).
Defined.
